(** * Stoplight: the phase controller of the intersection simulation

    A shallow embedding of [src/entities/stoplight.py].  The Python object
    is a record of four mutable fields; every method becomes a function
    from the record before the call to the record after it.  Python's
    integers are unbounded, so both counters are [Z].

    Of [src/entities/environment.py] the part that places the four ambient
    pictures is embedded as well: the constructor's checks, the scaling of
    the pictures and their blits onto the window. *)

From Stdlib Require Import ZArith Bool List Lia String.
Import ListNotations.
Local Open Scope Z_scope.

(** ** Colours *)

(** Modelled from the spec: [entities/colors.py] (the enum
    [TrafficLightColor]) is imported by the stoplight but is not part of
    the sources at hand.  The stoplight uses its three members [RED],
    [GREEN] and [YELLOW] (the spec's Stop, Go and Caution) and compares
    their [.value]s with [==]; the members are taken to have pairwise
    distinct values, so that comparing values is comparing members. *)
Inductive TrafficLightColor : Set :=
| RED
| GREEN
| YELLOW.

(** Python's [==] on two colour values. *)
Definition color_eqb (c d : TrafficLightColor) : bool :=
  match c, d with
  | RED, RED | GREEN, GREEN | YELLOW, YELLOW => true
  | _, _ => false
  end.

(** ** The object *)

Record Stoplight : Set := mkStoplight {
  color_NS : TrafficLightColor;
  color_EW : TrafficLightColor;
  time_yellow : Z;
  time_green : Z
}.

(** Attribute assignments [self.f = v]. *)
Definition set_color_NS (c : TrafficLightColor) (s : Stoplight) : Stoplight :=
  mkStoplight c (color_EW s) (time_yellow s) (time_green s).

Definition set_color_EW (c : TrafficLightColor) (s : Stoplight) : Stoplight :=
  mkStoplight (color_NS s) c (time_yellow s) (time_green s).

Definition set_time_yellow (t : Z) (s : Stoplight) : Stoplight :=
  mkStoplight (color_NS s) (color_EW s) t (time_green s).

Definition set_time_green (t : Z) (s : Stoplight) : Stoplight :=
  mkStoplight (color_NS s) (color_EW s) (time_yellow s) t.

(** [Stoplight.YELLOW_DURATION], in ticks. *)
Definition YELLOW_DURATION : Z := 90.

(** [__init__]; [choice] is the outcome of [random.choice([True, False])]. *)
Definition init (choice : bool) : Stoplight :=
  let ns := if choice then GREEN else RED in
  let ew := if color_eqb ns GREEN then RED else GREEN in
  mkStoplight ns ew 0 0.

Definition get_ns_color (s : Stoplight) : TrafficLightColor := color_NS s.
Definition get_ew_color (s : Stoplight) : TrafficLightColor := color_EW s.

(** [switch_yellow]: the spec's [request_transition]. *)
Definition switch_yellow (s : Stoplight) : Stoplight :=
  if color_eqb (color_NS s) GREEN then
    set_time_green 0 (set_color_NS YELLOW s)
  else if color_eqb (color_EW s) GREEN then
    set_time_green 0 (set_color_EW YELLOW s)
  else s.

(** [update_stoplight]: the spec's [tick].  The three statements of the
    body are three successive states [s1], [s2] and the result. *)
Definition update_stoplight (s : Stoplight) : Stoplight :=
  let s1 :=
    if color_eqb (color_NS s) GREEN || color_eqb (color_EW s) GREEN
    then set_time_green (time_green s + 1) s
    else s in
  let s2 :=
    if color_eqb (color_NS s1) YELLOW || color_eqb (color_EW s1) YELLOW
    then set_time_yellow (time_yellow s1 + 1) s1
    else s1 in
  if YELLOW_DURATION <=? time_yellow s2 then
    let s3 :=
      if color_eqb (color_NS s2) YELLOW then
        set_color_EW GREEN (set_color_NS RED s2)
      else if color_eqb (color_EW s2) YELLOW then
        set_color_NS GREEN (set_color_EW RED s2)
      else s2 in
    set_time_yellow 0 s3
  else s2.

(** ** Callers *)

(** The two axes of the intersection and the read accessor per axis. *)
Inductive Axis : Set :=
| NS
| EW.

Definition other (a : Axis) : Axis :=
  match a with
  | NS => EW
  | EW => NS
  end.

Definition indication_of (s : Stoplight) (a : Axis) : TrafficLightColor :=
  match a with
  | NS => get_ns_color s
  | EW => get_ew_color s
  end.

(** A caller does one of two things to the object. *)
Inductive Call : Set :=
| RequestTransition
| Tick.

Definition call (c : Call) (s : Stoplight) : Stoplight :=
  match c with
  | RequestTransition => switch_yellow s
  | Tick => update_stoplight s
  end.

(** A sequence of calls, the first of the list first. *)
Definition run (cs : list Call) (s : Stoplight) : Stoplight :=
  fold_left (fun st c => call c st) cs s.

(** [n] successive calls of [update_stoplight]. *)
Fixpoint ticks (n : nat) (s : Stoplight) : Stoplight :=
  match n with
  | O => s
  | S n' => ticks n' (update_stoplight s)
  end.

(** The states a stoplight can be in: built by [__init__], then any number
    of calls. *)
Inductive reachable : Stoplight -> Prop :=
| reach_init (choice : bool) : reachable (init choice)
| reach_switch (s : Stoplight) :
    reachable s -> reachable (switch_yellow s)
| reach_update (s : Stoplight) :
    reachable s -> reachable (update_stoplight s).

(** The states with axis [a] showing yellow resp. green and the other
    axis red. *)
Definition caution_state (a : Axis) (ty tg : Z) : Stoplight :=
  match a with
  | NS => mkStoplight YELLOW RED ty tg
  | EW => mkStoplight RED YELLOW ty tg
  end.

Definition go_state (a : Axis) (ty tg : Z) : Stoplight :=
  match a with
  | NS => mkStoplight GREEN RED ty tg
  | EW => mkStoplight RED GREEN ty tg
  end.

(** The invariant carried along every run. *)
Record Inv (s : Stoplight) : Prop := mkInv {
  inv_phase :
    (exists a, s = go_state a 0 (time_green s)) \/
    (exists a, s = caution_state a (time_yellow s) 0);
  inv_yellow_range : 0 <= time_yellow s < YELLOW_DURATION;
  inv_green_nonneg : 0 <= time_green s
}.

(** ** Observers of a run *)

(** How many of the calls are calls of [update_stoplight]. *)
Fixpoint count_ticks (cs : list Call) : nat :=
  match cs with
  | [] => O
  | Tick :: cs' => S (count_ticks cs')
  | RequestTransition :: cs' => count_ticks cs'
  end.

(** A call handed the right of way over: an axis that was red before the
    call is green after it. *)
Definition swapped (s s' : Stoplight) : bool :=
  (color_eqb (color_NS s) RED && color_eqb (color_NS s') GREEN)
  || (color_eqb (color_EW s) RED && color_eqb (color_EW s') GREEN).

(** How many calls of a run hand the right of way over. *)
Fixpoint count_swaps (cs : list Call) (s : Stoplight) : nat :=
  match cs with
  | [] => O
  | c :: cs' =>
      ((if swapped s (call c s) then 1 else 0) + count_swaps cs' (call c s))%nat
  end.

(** ** The environment: [src/entities/environment.py] *)

(** The exceptions the environment's methods raise. *)
Inductive Exn : Set :=
| AssertionError (msg : string)
| IndexError.

Section Environment.

Set Implicit Arguments.

(** pygame is a library outside the repository.  Its surfaces are an
    arbitrary type [Surface]; [scale] stands for [pygame.transform.scale]
    and [get_size] for the size of a surface. *)
Variable Surface : Type.
Variable scale : Surface -> Z * Z -> Surface.
Variable get_size : Surface -> Z * Z.

(** The window surface: its size, and the blits made onto it, the oldest
    first, each with the position it was given. *)
Record Window : Type := mkWindow {
  get_width : Z;
  get_height : Z;
  blitted : list (Surface * (Z * Z))
}.

(** [window.blit(source, dest)]. *)
Definition blit (source : Surface) (dest : Z * Z) (win : Window) : Window :=
  mkWindow (get_width win) (get_height win) (blitted win ++ [(source, dest)]).

Record Environment : Type := mkEnvironment {
  window : Window;
  ambient_images : list Surface;
  window_width : Z;
  window_height : Z
}.

Definition set_window (win : Window) (self : Environment) : Environment :=
  mkEnvironment win (ambient_images self) (window_width self)
    (window_height self).

(** [_resize_images], on the window that [self.window] holds. *)
Definition _resize_images (win : Window) (images : list Surface)
  : list Surface :=
  let width := get_width win in
  let height := get_height win in
  map (fun image => scale image (width / 2 - 30, height / 2 - 30)) images.

(** [__init__].  [win] is the surface that [pygame.display.set_mode]
    returned in [_pygame_init], [loaded] the images that
    [_load_pygame_images] returned for the files of the image directory. *)
Definition Environment_init (window_size : Z * Z) (name : string)
                            (win : Window) (loaded : list Surface)
  : Exn + Environment :=
  if negb ((0 <? fst window_size) && (0 <? snd window_size)) then
    inl (AssertionError "Window size must be greater than 0")
  else
    match name with
    | EmptyString =>
        inl (AssertionError "Name for the simulation must be a valid string")
    | String _ _ =>
        inr (mkEnvironment win (_resize_images win loaded)
               (get_width win) (get_height win))
    end.

(** A statement of a method: the object after it, and the exception it
    raised, if any. *)
Definition Stmt : Type := Environment -> Environment * option Exn.

(** Two statements in a row: the second is not run when the first raises. *)
Definition and_then (c1 c2 : Stmt) : Stmt :=
  fun self =>
    match c1 self with
    | (self', None) => c2 self'
    | (self', Some e) => (self', Some e)
    end.

(** [self.window.blit(self.ambient_images[i], dest)], where [dest] is
    computed from [self]; the index raises when the list is too short. *)
Definition blit_image (i : nat) (dest : Environment -> Z * Z) : Stmt :=
  fun self =>
    match nth_error (ambient_images self) i with
    | Some image => (set_window (blit image (dest self) (window self)) self, None)
    | None => (self, Some IndexError)
    end.

(** [_blit_images]. *)
Definition _blit_images : Stmt :=
  and_then (blit_image 0 (fun _ => (0, 0)))
    (and_then (blit_image 1 (fun self => (window_width self / 2 + 30, 0)))
       (and_then
          (blit_image 2 (fun self => (window_width self / 2 + 30,
                                      window_height self / 2 + 30)))
          (blit_image 3 (fun self => (0, window_height self / 2 + 30))))).

(** A blit lies within the window. *)
Definition inside (win : Window) (b : Surface * (Z * Z)) : Prop :=
  let '(x, y) := snd b in
  let '(w, h) := get_size (fst b) in
  0 <= x /\ 0 <= y /\ 0 <= w /\ 0 <= h /\
  x + w <= get_width win /\ y + h <= get_height win.

(** Two blits are at least [gap] pixels apart, side by side or one above
    the other. *)
Definition apart (gap : Z) (b1 b2 : Surface * (Z * Z)) : Prop :=
  let '(x1, y1) := snd b1 in
  let '(w1, h1) := get_size (fst b1) in
  let '(x2, y2) := snd b2 in
  let '(w2, h2) := get_size (fst b2) in
  x1 + w1 + gap <= x2 \/ x2 + w2 + gap <= x1 \/
  y1 + h1 + gap <= y2 \/ y2 + h2 + gap <= y1.

Unset Implicit Arguments.

End Environment.

(** Reading the fields of a state that is known. *)
Ltac read_fields :=
  unfold indication_of, get_ns_color, get_ew_color, caution_state, go_state in *;
  cbn [color_NS color_EW time_yellow time_green other] in *.

(** ** Sanity checks on concrete runs *)

Example init_true : init true = mkStoplight GREEN RED 0 0.
Proof. reflexivity. Qed.

Example init_false : init false = mkStoplight RED GREEN 0 0.
Proof. reflexivity. Qed.

Example ten_ticks_green :
  ticks 10 (init true) = mkStoplight GREEN RED 0 10.
Proof. reflexivity. Qed.

Example switch_then_89 :
  ticks 89 (switch_yellow (init true)) = mkStoplight YELLOW RED 89 0.
Proof. vm_compute. reflexivity. Qed.

Example switch_then_90 :
  ticks 90 (switch_yellow (init true)) = mkStoplight RED GREEN 0 0.
Proof. vm_compute. reflexivity. Qed.

Example both_green_switch :
  switch_yellow (mkStoplight GREEN GREEN 0 5) = mkStoplight YELLOW GREEN 0 0.
Proof. reflexivity. Qed.

(** ** Colour comparison *)

Lemma color_eqb_eq (c d : TrafficLightColor) : color_eqb c d = true <-> c = d.
Proof. destruct c, d; simpl; split; intro H; congruence. Qed.

Lemma color_eqb_refl (c : TrafficLightColor) : color_eqb c c = true.
Proof. now destruct c. Qed.

Lemma color_eqb_neq (c d : TrafficLightColor) : color_eqb c d = false <-> c <> d.
Proof. destruct c, d; simpl; split; intro H; congruence. Qed.

(** ** Runs and reachability *)

Lemma run_app (cs ds : list Call) (s : Stoplight) :
  run (cs ++ ds) s = run ds (run cs s).
Proof. unfold run. apply fold_left_app. Qed.

Lemma reachable_call (c : Call) (s : Stoplight) :
  reachable s -> reachable (call c s).
Proof. intro H. destruct c; simpl; now constructor. Qed.

Lemma reachable_run (cs : list Call) :
  forall s, reachable s -> reachable (run cs s).
Proof.
  induction cs as [|c cs IH]; intros s H; simpl.
  - exact H.
  - apply IH. now apply reachable_call.
Qed.

Lemma reachable_ticks (n : nat) :
  forall s, reachable s -> reachable (ticks n s).
Proof.
  induction n as [|n IH]; intros s H; simpl.
  - exact H.
  - apply IH. now constructor.
Qed.

(** [reachable] is exactly: some construction followed by some list of
    calls. *)
Lemma reachable_iff_run (s : Stoplight) :
  reachable s <-> exists choice cs, s = run cs (init choice).
Proof.
  split.
  - induction 1 as [choice | s _ [choice [cs ->]] | s _ [choice [cs ->]]].
    + now exists choice, [].
    + exists choice, (cs ++ [RequestTransition]). now rewrite run_app.
    + exists choice, (cs ++ [Tick]). now rewrite run_app.
  - intros [choice [cs ->]]. apply reachable_run. constructor.
Qed.

(** ** One call on a state of a known phase *)

Lemma switch_go (a : Axis) (ty tg : Z) :
  switch_yellow (go_state a ty tg) = caution_state a ty 0.
Proof. now destruct a. Qed.

Lemma switch_caution (a : Axis) (ty tg : Z) :
  switch_yellow (caution_state a ty tg) = caution_state a ty tg.
Proof. now destruct a. Qed.

Lemma update_go (a : Axis) (ty tg : Z) :
  ty < YELLOW_DURATION ->
  update_stoplight (go_state a ty tg) = go_state a ty (tg + 1).
Proof.
  intro H. destruct a; unfold update_stoplight; simpl;
    destruct (Z.leb_spec YELLOW_DURATION ty); (lia || reflexivity).
Qed.

Lemma update_caution_lt (a : Axis) (ty tg : Z) :
  ty + 1 < YELLOW_DURATION ->
  update_stoplight (caution_state a ty tg) = caution_state a (ty + 1) tg.
Proof.
  intro H. destruct a; unfold update_stoplight; simpl;
    destruct (Z.leb_spec YELLOW_DURATION (ty + 1)); (lia || reflexivity).
Qed.

Lemma update_caution_ge (a : Axis) (ty tg : Z) :
  YELLOW_DURATION <= ty + 1 ->
  update_stoplight (caution_state a ty tg) = go_state (other a) 0 tg.
Proof.
  intro H. destruct a; unfold update_stoplight; simpl;
    destruct (Z.leb_spec YELLOW_DURATION (ty + 1)); (lia || reflexivity).
Qed.

(** While the yellow counter stays below the duration, [n] ticks only add
    [n] to it. *)
Lemma ticks_caution (a : Axis) (tg : Z) (n : nat) :
  forall ty,
    ty + Z.of_nat n < YELLOW_DURATION ->
    ticks n (caution_state a ty tg) = caution_state a (ty + Z.of_nat n) tg.
Proof.
  induction n as [|n IH]; intros ty H.
  - simpl. now rewrite Z.add_0_r.
  - cbn [ticks]. rewrite update_caution_lt by lia.
    rewrite IH by lia. f_equal. lia.
Qed.

Lemma ticks_succ_r (n : nat) :
  forall s, ticks (S n) s = update_stoplight (ticks n s).
Proof.
  induction n as [|n IH]; intro s.
  - reflexivity.
  - change (ticks (S (S n)) s) with (ticks (S n) (update_stoplight s)).
    rewrite IH. reflexivity.
Qed.

(** ** The invariant *)

Lemma Inv_go (a : Axis) (tg : Z) : 0 <= tg -> Inv (go_state a 0 tg).
Proof.
  intro H. split.
  - left. exists a. now destruct a.
  - destruct a; simpl; unfold YELLOW_DURATION; lia.
  - now destruct a.
Qed.

Lemma Inv_caution (a : Axis) (ty : Z) :
  0 <= ty < YELLOW_DURATION -> Inv (caution_state a ty 0).
Proof.
  intro H. split.
  - right. exists a. now destruct a.
  - now destruct a.
  - destruct a; simpl; lia.
Qed.

Lemma Inv_init (choice : bool) : Inv (init choice).
Proof.
  destruct choice.
  - apply (Inv_go NS 0). lia.
  - apply (Inv_go EW 0). lia.
Qed.

Lemma Inv_switch (s : Stoplight) : Inv s -> Inv (switch_yellow s).
Proof.
  intros [[[a E] | [a E]] Hy Hg].
  - rewrite E, switch_go. apply Inv_caution. unfold YELLOW_DURATION. lia.
  - rewrite E, switch_caution. now apply Inv_caution.
Qed.

Lemma Inv_update (s : Stoplight) : Inv s -> Inv (update_stoplight s).
Proof.
  intros [[[a E] | [a E]] Hy Hg].
  - rewrite E, update_go by (unfold YELLOW_DURATION; lia).
    apply Inv_go. lia.
  - rewrite E.
    destruct (Z_lt_le_dec (time_yellow s + 1) YELLOW_DURATION) as [Hlt | Hge].
    + rewrite update_caution_lt by exact Hlt. apply Inv_caution. lia.
    + rewrite update_caution_ge by exact Hge. apply Inv_go. lia.
Qed.

Lemma reachable_Inv (s : Stoplight) : reachable s -> Inv s.
Proof.
  induction 1 as [choice | s _ IH | s _ IH].
  - apply Inv_init.
  - now apply Inv_switch.
  - now apply Inv_update.
Qed.

(** Every reachable state is in one of two phases: one axis green with the
    yellow counter at rest, or one axis yellow with the green counter at
    rest; the other axis is red. *)
Lemma reachable_phase (s : Stoplight) :
  reachable s ->
  exists a tg ty,
    (s = go_state a 0 tg /\ 0 <= tg) \/
    (s = caution_state a ty 0 /\ 0 <= ty < YELLOW_DURATION).
Proof.
  intro H. destruct (reachable_Inv s H) as [[[a E] | [a E]] Hy Hg];
    exists a, (time_green s), (time_yellow s); [left | right]; now split.
Qed.

Lemma time_yellow_lt_duration (s : Stoplight) :
  reachable s -> 0 <= time_yellow s < YELLOW_DURATION.
Proof. intro H. now destruct (reachable_Inv s H). Qed.

Lemma other_involutive (a : Axis) : other (other a) = a.
Proof. now destruct a. Qed.

(** ** Properties of the controller *)

(** C1, mutual exclusion: in every reachable state exactly one axis shows
    something other than red, that axis shows green or yellow, and the
    other axis shows red; the two axes are never both red and never both
    non-red. *)
Theorem mutual_exclusion (s : Stoplight) :
  reachable s ->
  (exists a,
      (indication_of s a = GREEN \/ indication_of s a = YELLOW) /\
      indication_of s (other a) = RED /\
      (forall b, indication_of s b <> RED -> b = a)) /\
  ~ (color_NS s = RED /\ color_EW s = RED) /\
  ~ (color_NS s <> RED /\ color_EW s <> RED).
Proof.
  intro H.
  destruct (reachable_phase s H) as (a & tg & ty & [[-> _] | [-> _]]);
    (split; [exists a; split; [ | split] | split]); destruct a; read_fields;
    try (now left); try (now right); try reflexivity;
    try (intros [? ?]; congruence);
    intros [] Hb; read_fields; congruence.
Qed.

Lemma mutual_exclusion_witness :
  reachable (run [Tick; RequestTransition; Tick] (init false)) /\
  ~ (color_NS (run [Tick; RequestTransition; Tick] (init false)) = RED /\
     color_EW (run [Tick; RequestTransition; Tick] (init false)) = RED).
Proof.
  split.
  - apply reachable_run, reach_init.
  - apply (mutual_exclusion (run [Tick; RequestTransition; Tick] (init false))).
    apply reachable_run, reach_init.
Defined.

(** A green axis pins the phase of a reachable state. *)
Lemma reachable_green (s : Stoplight) (a : Axis) :
  reachable s -> indication_of s a = GREEN ->
  exists tg, s = go_state a 0 tg /\ 0 <= tg.
Proof.
  intros H Ha.
  destruct (reachable_phase s H) as (b & tg & ty & [[-> Hg] | [-> _]]).
  - exists tg. destruct a, b; read_fields; (congruence || now split).
  - destruct a, b; read_fields; congruence.
Qed.

(** A yellow axis pins the phase of a reachable state. *)
Lemma reachable_yellow (s : Stoplight) (a : Axis) :
  reachable s -> indication_of s a = YELLOW ->
  exists ty, s = caution_state a ty 0 /\ 0 <= ty < YELLOW_DURATION.
Proof.
  intros H Ha.
  destruct (reachable_phase s H) as (b & tg & ty & [[-> _] | [-> Hy]]).
  - destruct a, b; read_fields; congruence.
  - exists ty. destruct a, b; read_fields; (congruence || now split).
Qed.

(** C2, bounded caution, as the code has it: from a reachable state in
    which axis [a] is green, [switch_yellow] turns [a] yellow with the
    yellow counter at 0; after each of the next [YELLOW_DURATION - 1] calls
    of [update_stoplight] (any number [n] of them below 90) the axis is
    still yellow, the other axis is red and the counter reads [n]; the call
    number [YELLOW_DURATION] (the 90th) makes the swap: [a] red, the other
    axis green, the counter back at 0. *)
Theorem bounded_caution (s : Stoplight) (a : Axis) :
  reachable s ->
  indication_of s a = GREEN ->
  (indication_of (switch_yellow s) a = YELLOW /\
   time_yellow (switch_yellow s) = 0) /\
  (forall n : nat,
      Z.of_nat n < YELLOW_DURATION ->
      indication_of (ticks n (switch_yellow s)) a = YELLOW /\
      indication_of (ticks n (switch_yellow s)) (other a) = RED /\
      time_yellow (ticks n (switch_yellow s)) = Z.of_nat n) /\
  (indication_of (ticks (Z.to_nat YELLOW_DURATION) (switch_yellow s)) a = RED /\
   indication_of (ticks (Z.to_nat YELLOW_DURATION) (switch_yellow s)) (other a)
     = GREEN /\
   time_yellow (ticks (Z.to_nat YELLOW_DURATION) (switch_yellow s)) = 0).
Proof.
  intros H Ha.
  destruct (reachable_green s a H Ha) as (tg & -> & _).
  rewrite switch_go. split; [ | split].
  - now destruct a.
  - intros n Hn. rewrite ticks_caution by lia.
    destruct a; read_fields; repeat split; lia.
  - change (Z.to_nat YELLOW_DURATION) with 90%nat.
    rewrite ticks_succ_r, ticks_caution by (unfold YELLOW_DURATION; lia).
    rewrite update_caution_ge by (unfold YELLOW_DURATION; lia).
    now destruct a.
Qed.

Lemma bounded_caution_witness :
  reachable (ticks 7 (init false)) /\
  indication_of (ticks 7 (init false)) EW = GREEN /\
  indication_of (ticks 89 (switch_yellow (ticks 7 (init false)))) EW = YELLOW /\
  indication_of (ticks 90 (switch_yellow (ticks 7 (init false)))) EW = RED.
Proof.
  assert (R : reachable (ticks 7 (init false)))
    by (apply reachable_ticks, reach_init).
  assert (G : indication_of (ticks 7 (init false)) EW = GREEN) by reflexivity.
  destruct (bounded_caution (ticks 7 (init false)) EW R G) as (_ & Hn & Hd & _).
  split; [exact R | ]. split; [exact G | ]. split; [ | exact Hd].
  destruct (Hn 89%nat) as [Hy _]; [unfold YELLOW_DURATION; lia | exact Hy].
Defined.

(** C2 as the specification words it fails: after [switch_yellow] and 90 calls of
    [update_stoplight] the axis is no longer yellow (the swap was made by
    the 90th call), and the 91st call makes no swap. *)
Lemma bounded_caution_counterexample :
  reachable (init true) /\
  indication_of (init true) NS = GREEN /\
  indication_of (switch_yellow (init true)) NS = YELLOW /\
  ~ (indication_of (ticks 90 (switch_yellow (init true))) NS = YELLOW) /\
  ticks 90 (switch_yellow (init true)) = mkStoplight RED GREEN 0 0 /\
  ticks 91 (switch_yellow (init true)) = mkStoplight RED GREEN 0 1.
Proof.
  split; [apply reach_init | ].
  split; [reflexivity | ].
  split; [reflexivity | ].
  split; [vm_compute; discriminate | ].
  split; vm_compute; reflexivity.
Qed.

(** C3, scenario 3: from a state with NS yellow, EW red and the yellow
    counter at 0 (the duration being 90), 89 calls of [update_stoplight]
    leave NS yellow with the counter at 89, and one more call makes NS red,
    EW green and the counter 0. *)
Theorem scenario_3 (s : Stoplight) :
  color_NS s = YELLOW ->
  color_EW s = RED ->
  time_yellow s = 0 ->
  YELLOW_DURATION = 90 /\
  (color_NS (ticks 89 s) = YELLOW /\
   color_EW (ticks 89 s) = RED /\
   time_yellow (ticks 89 s) = 89) /\
  (color_NS (update_stoplight (ticks 89 s)) = RED /\
   color_EW (update_stoplight (ticks 89 s)) = GREEN /\
   time_yellow (update_stoplight (ticks 89 s)) = 0).
Proof.
  destruct s as [ns ew ty tg].
  cbn [color_NS color_EW time_yellow]. intros -> -> ->.
  change (mkStoplight YELLOW RED 0 tg) with (caution_state NS 0 tg).
  rewrite ticks_caution by (unfold YELLOW_DURATION; lia).
  rewrite update_caution_ge by (unfold YELLOW_DURATION; lia).
  repeat split.
Qed.

Lemma scenario_3_witness :
  time_yellow (ticks 89 (mkStoplight YELLOW RED 0 0)) = 89 /\
  color_EW (update_stoplight (ticks 89 (mkStoplight YELLOW RED 0 0))) = GREEN.
Proof.
  destruct (scenario_3 (mkStoplight YELLOW RED 0 0) eq_refl eq_refl eq_refl)
    as (_ & (_ & _ & H89) & (_ & H90 & _)).
  split; assumption.
Defined.

(** C4, effect of [switch_yellow], on every state (reachable or not): if
    some axis is green, a green axis (that very axis, unless the other one
    is green too) is turned yellow and the green counter is set to 0, while
    the other axis keeps its colour; if no axis is green, the whole state
    is left as it was. *)
Theorem switch_yellow_effect (s : Stoplight) :
  (forall a,
      indication_of s a = GREEN ->
      exists a',
        indication_of s a' = GREEN /\
        (indication_of s (other a) <> GREEN -> a' = a) /\
        indication_of (switch_yellow s) a' = YELLOW /\
        indication_of (switch_yellow s) (other a')
          = indication_of s (other a') /\
        time_green (switch_yellow s) = 0 /\
        time_yellow (switch_yellow s) = time_yellow s) /\
  ((forall a, indication_of s a <> GREEN) -> switch_yellow s = s).
Proof.
  destruct s as [ns ew ty tg]. split.
  - intros a Ha. unfold switch_yellow. cbn [color_NS color_EW].
    destruct (color_eqb ns GREEN) eqn:Ens.
    + apply color_eqb_eq in Ens. subst ns. exists NS.
      destruct a; read_fields; repeat split; congruence.
    + apply color_eqb_neq in Ens.
      destruct a; read_fields; [congruence | ]. subst ew.
      exists EW. read_fields. repeat split.
  - intro Hno. unfold switch_yellow.
    pose proof (Hno NS) as Hns. pose proof (Hno EW) as Hew. read_fields.
    apply color_eqb_neq in Hns, Hew. now rewrite Hns, Hew.
Qed.

Lemma switch_yellow_effect_witness :
  (exists a',
      indication_of (mkStoplight RED GREEN 0 12) a' = GREEN /\
      (indication_of (mkStoplight RED GREEN 0 12) (other EW) <> GREEN ->
       a' = EW) /\
      indication_of (switch_yellow (mkStoplight RED GREEN 0 12)) a' = YELLOW /\
      indication_of (switch_yellow (mkStoplight RED GREEN 0 12)) (other a')
        = indication_of (mkStoplight RED GREEN 0 12) (other a') /\
      time_green (switch_yellow (mkStoplight RED GREEN 0 12)) = 0 /\
      time_yellow (switch_yellow (mkStoplight RED GREEN 0 12))
        = time_yellow (mkStoplight RED GREEN 0 12)) /\
  switch_yellow (mkStoplight YELLOW RED 3 0) = mkStoplight YELLOW RED 3 0.
Proof.
  split.
  - exact (proj1 (switch_yellow_effect (mkStoplight RED GREEN 0 12))
             EW eq_refl).
  - apply (proj2 (switch_yellow_effect (mkStoplight YELLOW RED 3 0))).
    intros []; read_fields; discriminate.
Defined.

(** C5, idempotent request: in every reachable state a second
    [switch_yellow] right after the first changes nothing. *)
Theorem switch_yellow_idempotent (s : Stoplight) :
  reachable s ->
  switch_yellow (switch_yellow s) = switch_yellow s.
Proof.
  intro H.
  destruct (reachable_phase s H) as (a & tg & ty & [[-> _] | [-> _]]).
  - now rewrite switch_go, switch_caution.
  - now rewrite !switch_caution.
Qed.

Lemma switch_yellow_idempotent_witness :
  reachable (ticks 4 (init true)) /\
  switch_yellow (switch_yellow (ticks 4 (init true)))
    = switch_yellow (ticks 4 (init true)).
Proof.
  split.
  - apply reachable_ticks, reach_init.
  - apply (switch_yellow_idempotent (ticks 4 (init true))).
    apply reachable_ticks, reach_init.
Defined.

(** C6, initialisation: whichever way the random choice falls, [__init__]
    makes one axis green and the other red (NS green exactly when the
    choice is [True]), no axis yellow, and both counters 0. *)
Theorem init_spec (choice : bool) :
  ((color_NS (init choice) = GREEN /\ color_EW (init choice) = RED) \/
   (color_NS (init choice) = RED /\ color_EW (init choice) = GREEN)) /\
  (color_NS (init choice) = GREEN <-> choice = true) /\
  (forall a, indication_of (init choice) a <> YELLOW) /\
  time_green (init choice) = 0 /\
  time_yellow (init choice) = 0.
Proof.
  destruct choice; cbn.
  - split; [now left | ]. split; [now split | ].
    split; [intros []; discriminate | now split].
  - split; [now right | ]. split; [split; discriminate | ].
    split; [intros []; discriminate | now split].
Qed.

(** C7 (I3): in every reachable state the yellow counter is non-zero only
    if some axis is yellow; said the other way round, when no axis is
    yellow the counter is 0. *)
Theorem time_yellow_only_while_yellow (s : Stoplight) :
  reachable s ->
  (time_yellow s <> 0 -> exists a, indication_of s a = YELLOW) /\
  ((forall a, indication_of s a <> YELLOW) -> time_yellow s = 0).
Proof.
  intro H.
  destruct (reachable_phase s H) as (a & tg & ty & [[-> _] | [-> _]]).
  - split.
    + intro Hnz. destruct a; read_fields; congruence.
    + intros _. now destruct a.
  - split.
    + intros _. exists a. now destruct a.
    + intro Hno. specialize (Hno a). destruct a; read_fields; congruence.
Qed.

Lemma time_yellow_only_while_yellow_witness :
  reachable (update_stoplight (ticks 90 (switch_yellow (init true)))) /\
  time_yellow (update_stoplight (ticks 90 (switch_yellow (init true)))) = 0.
Proof.
  assert (R : reachable
                (update_stoplight (ticks 90 (switch_yellow (init true)))))
    by (apply reach_update, reachable_ticks, reach_switch, reach_init).
  split; [exact R | ].
  apply (proj2 (time_yellow_only_while_yellow _ R)).
  intros []; vm_compute; discriminate.
Defined.

(** C8, scenario 4: with NS red and EW green, [switch_yellow] turns EW
    yellow and sets the green counter to 0; NS stays red. *)
Theorem scenario_4 (s : Stoplight) :
  color_NS s = RED ->
  color_EW s = GREEN ->
  color_EW (switch_yellow s) = YELLOW /\
  color_NS (switch_yellow s) = RED /\
  time_green (switch_yellow s) = 0 /\
  time_yellow (switch_yellow s) = time_yellow s.
Proof.
  destruct s as [ns ew ty tg]. cbn [color_NS color_EW].
  intros -> ->. repeat split.
Qed.

Lemma scenario_4_witness :
  color_EW (switch_yellow (mkStoplight RED GREEN 0 25)) = YELLOW /\
  color_NS (switch_yellow (mkStoplight RED GREEN 0 25)) = RED /\
  time_green (switch_yellow (mkStoplight RED GREEN 0 25)) = 0 /\
  time_yellow (switch_yellow (mkStoplight RED GREEN 0 25))
    = time_yellow (mkStoplight RED GREEN 0 25).
Proof.
  exact (scenario_4 (mkStoplight RED GREEN 0 25) eq_refl eq_refl).
Defined.

(** C9 (I4): in every reachable state the yellow counter is at most
    [YELLOW_DURATION]; when an axis is yellow and the coming call of
    [update_stoplight] brings the counter to the duration, that same call
    makes the swap (the yellow axis red, the other green) and puts the
    counter back to 0, so the counter is within the bound after the call
    as well. *)
Theorem time_yellow_bounded (s : Stoplight) :
  reachable s ->
  time_yellow s <= YELLOW_DURATION /\
  (forall a,
      indication_of s a = YELLOW ->
      YELLOW_DURATION <= time_yellow s + 1 ->
      indication_of (update_stoplight s) a = RED /\
      indication_of (update_stoplight s) (other a) = GREEN /\
      time_yellow (update_stoplight s) = 0) /\
  time_yellow (update_stoplight s) <= YELLOW_DURATION.
Proof.
  intro H. split; [ | split].
  - pose proof (time_yellow_lt_duration s H). lia.
  - intros a Ha Hge.
    destruct (reachable_yellow s a H Ha) as (ty & -> & _).
    rewrite update_caution_ge by (destruct a; exact Hge).
    now destruct a.
  - pose proof (time_yellow_lt_duration _ (reach_update s H)). lia.
Qed.

Lemma time_yellow_bounded_witness :
  reachable (ticks 89 (switch_yellow (init true))) /\
  time_yellow (ticks 89 (switch_yellow (init true))) <= YELLOW_DURATION /\
  indication_of (update_stoplight (ticks 89 (switch_yellow (init true)))) NS
    = RED /\
  time_yellow (update_stoplight (ticks 89 (switch_yellow (init true)))) = 0.
Proof.
  assert (R : reachable (ticks 89 (switch_yellow (init true))))
    by (apply reachable_ticks, reach_switch, reach_init).
  destruct (time_yellow_bounded _ R) as (Hle & Hswap & _).
  assert (Y : indication_of (ticks 89 (switch_yellow (init true))) NS = YELLOW)
    by (vm_compute; reflexivity).
  assert (D : YELLOW_DURATION
              <= time_yellow (ticks 89 (switch_yellow (init true))) + 1)
    by (vm_compute; discriminate).
  destruct (Hswap NS Y D) as (Hred & _ & Hzero).
  split; [exact R | ]. split; [exact Hle | ]. split; [exact Hred | exact Hzero].
Defined.

(** C10: in every reachable state with a yellow axis the green counter is
    0, and a call of [update_stoplight] from such a state leaves it at 0,
    be it a tick within the yellow period or the one that makes the swap:
    the axis that turns green starts counting from 0. *)
Theorem time_green_zero_while_yellow (s : Stoplight) :
  reachable s ->
  (exists a, indication_of s a = YELLOW) ->
  time_green s = 0 /\ time_green (update_stoplight s) = 0.
Proof.
  intros H [a Ha].
  destruct (reachable_yellow s a H Ha) as (ty & -> & _). split.
  - now destruct a.
  - destruct (Z_lt_le_dec (ty + 1) YELLOW_DURATION) as [Hlt | Hge].
    + rewrite update_caution_lt by exact Hlt. now destruct a.
    + rewrite update_caution_ge by exact Hge. now destruct a.
Qed.

Lemma time_green_zero_while_yellow_witness :
  reachable (ticks 30 (switch_yellow (ticks 12 (init false)))) /\
  time_green (ticks 30 (switch_yellow (ticks 12 (init false)))) = 0 /\
  time_green
    (update_stoplight (ticks 30 (switch_yellow (ticks 12 (init false))))) = 0.
Proof.
  assert (R : reachable (ticks 30 (switch_yellow (ticks 12 (init false)))))
    by (apply reachable_ticks, reach_switch, reachable_ticks, reach_init).
  split; [exact R | ].
  apply (time_green_zero_while_yellow _ R).
  exists EW. vm_compute. reflexivity.
Defined.

(** ** Further properties of the stoplight *)

Lemma ticks_go (a : Axis) (n : nat) :
  forall tg, ticks n (go_state a 0 tg) = go_state a 0 (tg + Z.of_nat n).
Proof.
  induction n as [|n IH]; intro tg.
  - simpl. now rewrite Z.add_0_r.
  - cbn [ticks]. rewrite update_go by (unfold YELLOW_DURATION; lia).
    rewrite IH. f_equal. lia.
Qed.

Lemma init_go (a : Axis) :
  init (match a with NS => true | EW => false end) = go_state a 0 0.
Proof. now destruct a. Qed.

Lemma reachable_go_state (a : Axis) (tg : Z) :
  0 <= tg -> reachable (go_state a 0 tg).
Proof.
  intro H. replace tg with (0 + Z.of_nat (Z.to_nat tg)) by lia.
  rewrite <- ticks_go, <- init_go. apply reachable_ticks, reach_init.
Qed.

Lemma reachable_caution_state (a : Axis) (ty : Z) :
  0 <= ty < YELLOW_DURATION -> reachable (caution_state a ty 0).
Proof.
  intro H. replace ty with (0 + Z.of_nat (Z.to_nat ty)) by lia.
  rewrite <- ticks_caution by lia.
  rewrite <- (switch_go a 0 0), <- init_go.
  apply reachable_ticks, reach_switch, reach_init.
Qed.

(** X1, the reachable states, exactly: a state can be reached by
    [__init__] and calls if and only if either one axis is green, the other
    red, [time_yellow] is 0 and [time_green] is not negative, or one axis is
    yellow, the other red, [time_yellow] is at least 0 and below
    [YELLOW_DURATION] and [time_green] is 0. *)
Theorem reachable_exactly (s : Stoplight) :
  reachable s <->
  (((color_NS s = GREEN /\ color_EW s = RED) \/
    (color_NS s = RED /\ color_EW s = GREEN)) /\
   time_yellow s = 0 /\ 0 <= time_green s) \/
  (((color_NS s = YELLOW /\ color_EW s = RED) \/
    (color_NS s = RED /\ color_EW s = YELLOW)) /\
   0 <= time_yellow s < YELLOW_DURATION /\ time_green s = 0).
Proof.
  split.
  - intro H.
    destruct (reachable_phase s H) as (a & tg & ty & [[-> Hg] | [-> Hy]]).
    + left. destruct a; read_fields;
        (split; [(now left) || (now right) | now split]).
    + right. destruct a; read_fields;
        (split; [(now left) || (now right) | now split]).
  - destruct s as [ns ew ty tg]. cbn [color_NS color_EW time_yellow time_green].
    intros [([[-> ->] | [-> ->]] & -> & Hg) | ([[-> ->] | [-> ->]] & Hy & ->)].
    + now apply (reachable_go_state NS).
    + now apply (reachable_go_state EW).
    + now apply (reachable_caution_state NS).
    + now apply (reachable_caution_state EW).
Qed.

Lemma reachable_exactly_witness :
  reachable (mkStoplight RED YELLOW 57 0) /\
  ~ reachable (mkStoplight YELLOW RED 3 4) /\
  ~ reachable (mkStoplight RED RED 0 0).
Proof.
  split; [ | split].
  - apply (proj2 (reachable_exactly (mkStoplight RED YELLOW 57 0))).
    right. cbn. unfold YELLOW_DURATION. split; [now right | ]. lia.
  - intro H.
    apply (proj1 (reachable_exactly (mkStoplight YELLOW RED 3 4))) in H.
    cbn in H. destruct H as [([[? _] | [? _]] & _) | (_ & _ & ?)];
      discriminate.
  - intro H.
    apply (proj1 (reachable_exactly (mkStoplight RED RED 0 0))) in H.
    cbn in H. destruct H as [([[? _] | [_ ?]] & _) | ([[? _] | [_ ?]] & _)];
      discriminate.
Defined.

(** X2, a green phase lasts until it is asked to end: from a reachable
    state with axis [a] green, any number [n] of calls of
    [update_stoplight] leave [a] green and the other axis red, keep
    [time_yellow] at 0 and add [n] to [time_green]. *)
Theorem green_until_requested (s : Stoplight) (a : Axis) (n : nat) :
  reachable s ->
  indication_of s a = GREEN ->
  indication_of (ticks n s) a = GREEN /\
  indication_of (ticks n s) (other a) = RED /\
  time_yellow (ticks n s) = 0 /\
  time_green (ticks n s) = time_green s + Z.of_nat n.
Proof.
  intros H Ha. destruct (reachable_green s a H Ha) as (tg & -> & _).
  rewrite ticks_go. destruct a; read_fields; repeat split.
Qed.

Lemma green_until_requested_witness :
  indication_of (ticks 1000 (init true)) NS = GREEN /\
  indication_of (ticks 1000 (init true)) (other NS) = RED /\
  time_yellow (ticks 1000 (init true)) = 0 /\
  time_green (ticks 1000 (init true))
    = time_green (init true) + Z.of_nat 1000.
Proof.
  exact (green_until_requested (init true) NS 1000 (reach_init true) eq_refl).
Defined.

(** X3, the rest of a yellow phase: from a reachable state with axis [a]
    yellow, the state after [n] calls of [update_stoplight] is still that
    yellow phase, with [n] added to [time_yellow], as long as
    [time_yellow + n] is below [YELLOW_DURATION]; and after exactly
    [YELLOW_DURATION - time_yellow] calls the other axis is green, [a] is
    red and both counters are 0. *)
Theorem caution_remaining (s : Stoplight) (a : Axis) :
  reachable s ->
  indication_of s a = YELLOW ->
  (forall n : nat,
      time_yellow s + Z.of_nat n < YELLOW_DURATION ->
      ticks n s = caution_state a (time_yellow s + Z.of_nat n) 0) /\
  ticks (Z.to_nat (YELLOW_DURATION - time_yellow s)) s = go_state (other a) 0 0.
Proof.
  intros H Ha. destruct (reachable_yellow s a H Ha) as (ty & -> & Hy).
  assert (E : time_yellow (caution_state a ty 0) = ty) by now destruct a.
  rewrite E. split.
  - intros n Hn. now apply ticks_caution.
  - replace (Z.to_nat (YELLOW_DURATION - ty))
      with (S (Z.to_nat (YELLOW_DURATION - 1 - ty))) by lia.
    rewrite ticks_succ_r, ticks_caution by lia.
    apply update_caution_ge. lia.
Qed.

Lemma caution_remaining_witness :
  ticks 10 (ticks 50 (switch_yellow (init false)))
    = caution_state EW
        (time_yellow (ticks 50 (switch_yellow (init false))) + Z.of_nat 10) 0 /\
  ticks (Z.to_nat
           (YELLOW_DURATION
            - time_yellow (ticks 50 (switch_yellow (init false)))))
        (ticks 50 (switch_yellow (init false)))
    = go_state (other EW) 0 0.
Proof.
  assert (R : reachable (ticks 50 (switch_yellow (init false))))
    by (apply reachable_ticks, reach_switch, reach_init).
  assert (Y : indication_of (ticks 50 (switch_yellow (init false))) EW = YELLOW)
    by (vm_compute; reflexivity).
  destruct (caution_remaining _ EW R Y) as [Hn Hd].
  split; [ | exact Hd].
  apply (Hn 10%nat). vm_compute. reflexivity.
Defined.

Lemma run_caution (cs : list Call) (a : Axis) :
  forall ty,
    ty + Z.of_nat (count_ticks cs) < YELLOW_DURATION ->
    run cs (caution_state a ty 0)
      = caution_state a (ty + Z.of_nat (count_ticks cs)) 0.
Proof.
  induction cs as [|[|] cs IH]; intros ty H.
  - simpl. now rewrite Z.add_0_r.
  - change (run (RequestTransition :: cs) (caution_state a ty 0))
      with (run cs (switch_yellow (caution_state a ty 0))).
    rewrite switch_caution. now apply IH.
  - change (run (Tick :: cs) (caution_state a ty 0))
      with (run cs (update_stoplight (caution_state a ty 0))).
    cbn [count_ticks] in *. rewrite update_caution_lt by lia.
    rewrite IH by lia. f_equal. lia.
Qed.

(** X4, requests during a yellow phase change nothing: from a reachable
    state with a yellow axis, a sequence of calls whose calls of
    [update_stoplight] do not bring [time_yellow] to [YELLOW_DURATION] ends
    in the same state as those calls of [update_stoplight] alone, however
    many calls of [switch_yellow] are mixed in. *)
Theorem requests_ignored_while_yellow (s : Stoplight) (a : Axis)
                                      (cs : list Call) :
  reachable s ->
  indication_of s a = YELLOW ->
  time_yellow s + Z.of_nat (count_ticks cs) < YELLOW_DURATION ->
  run cs s = ticks (count_ticks cs) s.
Proof.
  intros H Ha. destruct (reachable_yellow s a H Ha) as (ty & -> & Hy).
  replace (time_yellow (caution_state a ty 0)) with ty by now destruct a.
  intro Hn. rewrite run_caution, ticks_caution by exact Hn. reflexivity.
Qed.

Lemma requests_ignored_while_yellow_witness :
  run [RequestTransition; Tick; RequestTransition; RequestTransition; Tick]
      (switch_yellow (init true))
    = ticks
        (count_ticks
           [RequestTransition; Tick; RequestTransition; RequestTransition; Tick])
        (switch_yellow (init true)).
Proof.
  apply (requests_ignored_while_yellow (switch_yellow (init true)) NS).
  - apply reach_switch, reach_init.
  - reflexivity.
  - vm_compute. reflexivity.
Defined.

(** X5, the cycle of one axis: in a reachable state, a call either leaves
    the colour of an axis as it is, or takes it from green to yellow (only
    [switch_yellow] does), from yellow to red (only [update_stoplight]
    does, and the other axis is green afterwards), or from red to green
    (only [update_stoplight] does, and the other axis was yellow). *)
Theorem axis_cycle (s : Stoplight) (c : Call) (a : Axis) :
  reachable s ->
  indication_of (call c s) a = indication_of s a \/
  (indication_of s a = GREEN /\ indication_of (call c s) a = YELLOW /\
   c = RequestTransition) \/
  (indication_of s a = YELLOW /\ indication_of (call c s) a = RED /\
   c = Tick /\ indication_of (call c s) (other a) = GREEN) \/
  (indication_of s a = RED /\ indication_of (call c s) a = GREEN /\
   c = Tick /\ indication_of s (other a) = YELLOW).
Proof.
  intro H.
  destruct (reachable_phase s H) as (b & tg & ty & [[-> _] | [-> _]]);
    destruct c; cbn [call].
  - rewrite switch_go. destruct a, b; read_fields; auto 6.
  - rewrite update_go by (unfold YELLOW_DURATION; lia).
    destruct a, b; read_fields; auto.
  - rewrite switch_caution. now left.
  - destruct (Z_lt_le_dec (ty + 1) YELLOW_DURATION) as [Hlt | Hge].
    + rewrite update_caution_lt by exact Hlt.
      destruct a, b; read_fields; auto.
    + rewrite update_caution_ge by exact Hge.
      destruct a, b; read_fields; auto 8.
Qed.

Lemma axis_cycle_witness :
  indication_of (ticks 89 (switch_yellow (init true))) EW = RED /\
  indication_of (call Tick (ticks 89 (switch_yellow (init true)))) EW = GREEN.
Proof.
  assert (R : reachable (ticks 89 (switch_yellow (init true))))
    by (apply reachable_ticks, reach_switch, reach_init).
  destruct (axis_cycle _ Tick EW R)
    as [Hsame | [(Hg & _) | [(Hy & _) | (Hr & Hg & _)]]].
  - vm_compute in Hsame. discriminate Hsame.
  - vm_compute in Hg. discriminate Hg.
  - vm_compute in Hy. discriminate Hy.
  - split; [exact Hr | exact Hg].
Defined.

(** X6, what no call does, in any state whatsoever (reachable or not):
    no call turns a green axis red, none turns a red axis yellow,
    [update_stoplight] never makes an axis yellow that was not, and
    [switch_yellow] changes no axis that is not green and never touches
    [time_yellow]. *)
Theorem never_skips_yellow (s : Stoplight) (c : Call) (a : Axis) :
  (indication_of s a = GREEN -> indication_of (call c s) a <> RED) /\
  (indication_of s a = RED -> indication_of (call c s) a <> YELLOW) /\
  (indication_of (update_stoplight s) a = YELLOW ->
   indication_of s a = YELLOW) /\
  (indication_of s a <> GREEN ->
   indication_of (switch_yellow s) a = indication_of s a) /\
  time_yellow (switch_yellow s) = time_yellow s.
Proof.
  destruct s as [ns ew ty tg].
  assert (U : forall b,
             indication_of (update_stoplight (mkStoplight ns ew ty tg)) b
               = YELLOW ->
             indication_of (mkStoplight ns ew ty tg) b = YELLOW).
  { intros b. unfold update_stoplight.
    destruct ns, ew, b; cbn -[Z.leb Z.add];
      match goal with
      | |- context [YELLOW_DURATION <=? ?x] =>
          destruct (YELLOW_DURATION <=? x)
      end; cbn; congruence. }
  assert (G : forall b,
             indication_of (mkStoplight ns ew ty tg) b = GREEN ->
             indication_of (update_stoplight (mkStoplight ns ew ty tg)) b
               <> RED).
  { intros b. unfold update_stoplight.
    destruct ns, ew, b; cbn -[Z.leb Z.add];
      match goal with
      | |- context [YELLOW_DURATION <=? ?x] =>
          destruct (YELLOW_DURATION <=? x)
      end; cbn; congruence. }
  split; [ | split; [ | split; [ | split]]].
  - destruct c; cbn [call]; [ | apply G].
    destruct ns, ew, a; cbn; congruence.
  - destruct c; cbn [call].
    + destruct ns, ew, a; cbn; congruence.
    + intros Hr Hy. apply U in Hy. congruence.
  - apply U.
  - destruct ns, ew, a; cbn; congruence.
  - destruct ns, ew; reflexivity.
Qed.

Lemma never_skips_yellow_witness :
  indication_of (call Tick (mkStoplight GREEN YELLOW 200 7)) NS <> RED.
Proof.
  apply (never_skips_yellow (mkStoplight GREEN YELLOW 200 7) Tick NS).
  reflexivity.
Defined.

Lemma swapped_go_go (a : Axis) (ty tg ty' tg' : Z) :
  swapped (go_state a ty tg) (go_state a ty' tg') = false.
Proof. now destruct a. Qed.

Lemma swapped_go_caution (a : Axis) (ty tg ty' tg' : Z) :
  swapped (go_state a ty tg) (caution_state a ty' tg') = false.
Proof. now destruct a. Qed.

Lemma swapped_caution_caution (a : Axis) (ty tg ty' tg' : Z) :
  swapped (caution_state a ty tg) (caution_state a ty' tg') = false.
Proof. now destruct a. Qed.

Lemma swapped_caution_go (a : Axis) (ty tg ty' tg' : Z) :
  swapped (caution_state a ty tg) (go_state (other a) ty' tg') = true.
Proof. now destruct a. Qed.

(** Every hand-over is paid for by [YELLOW_DURATION] ticks; the ticks of a
    yellow phase under way are counted by [time_yellow]. *)
Lemma count_swaps_phase (cs : list Call) :
  (forall a tg,
      YELLOW_DURATION * Z.of_nat (count_swaps cs (go_state a 0 tg))
        <= Z.of_nat (count_ticks cs)) /\
  (forall a ty,
      0 <= ty < YELLOW_DURATION ->
      YELLOW_DURATION * Z.of_nat (count_swaps cs (caution_state a ty 0))
        <= Z.of_nat (count_ticks cs) + ty).
Proof.
  induction cs as [|c cs [IHg IHc]].
  - split; intros; cbn [count_swaps count_ticks]; lia.
  - split.
    + intros a tg. destruct c; cbn [count_swaps count_ticks call].
      * rewrite switch_go, swapped_go_caution.
        specialize (IHc a 0). unfold YELLOW_DURATION in *. lia.
      * rewrite update_go, swapped_go_go by (unfold YELLOW_DURATION; lia).
        specialize (IHg a (tg + 1)). lia.
    + intros a ty Hy. destruct c; cbn [count_swaps count_ticks call].
      * rewrite switch_caution, swapped_caution_caution.
        specialize (IHc a ty Hy). lia.
      * destruct (Z_lt_le_dec (ty + 1) YELLOW_DURATION) as [Hlt | Hge].
        -- rewrite update_caution_lt, swapped_caution_caution by exact Hlt.
           specialize (IHc a (ty + 1)). lia.
        -- rewrite update_caution_ge, swapped_caution_go by exact Hge.
           specialize (IHg (other a) 0). lia.
Qed.

(** X7, the right of way changes hands at most once per [YELLOW_DURATION]
    ticks: along any sequence of calls from a reachable state,
    [YELLOW_DURATION] times the number of hand-overs is at most the number
    of calls of [update_stoplight] in the sequence plus the [time_yellow]
    the state started with. *)
Theorem swaps_bounded_by_ticks (s : Stoplight) (cs : list Call) :
  reachable s ->
  YELLOW_DURATION * Z.of_nat (count_swaps cs s)
    <= Z.of_nat (count_ticks cs) + time_yellow s.
Proof.
  intro H. destruct (count_swaps_phase cs) as [Hg Hc].
  destruct (reachable_phase s H) as (a & tg & ty & [[-> _] | [-> Hy]]).
  - specialize (Hg a tg).
    replace (time_yellow (go_state a 0 tg)) with 0 by now destruct a.
    lia.
  - specialize (Hc a ty Hy).
    replace (time_yellow (caution_state a ty 0)) with ty by now destruct a.
    exact Hc.
Qed.

Lemma swaps_bounded_by_ticks_witness :
  YELLOW_DURATION
    * Z.of_nat (count_swaps (RequestTransition :: repeat Tick 90) (init true))
    <= Z.of_nat (count_ticks (RequestTransition :: repeat Tick 90))
       + time_yellow (init true).
Proof.
  apply (swaps_bounded_by_ticks (init true)). apply reach_init.
Defined.

Example one_swap_in_ninety :
  count_swaps (RequestTransition :: repeat Tick 90) (init true) = 1%nat /\
  count_ticks (RequestTransition :: repeat Tick 90) = 90%nat.
Proof. split; vm_compute; reflexivity. Qed.

(** X8, the yellow counter after a tick, in any state whatsoever: after a
    call of [update_stoplight] [time_yellow] is below [YELLOW_DURATION];
    it is 0 if it was at or above the duration before the call, whatever
    the colours; and it is not negative if it was not. *)
Theorem update_keeps_counter_below (s : Stoplight) :
  time_yellow (update_stoplight s) < YELLOW_DURATION /\
  (YELLOW_DURATION <= time_yellow s -> time_yellow (update_stoplight s) = 0) /\
  (0 <= time_yellow s -> 0 <= time_yellow (update_stoplight s)).
Proof.
  destruct s as [ns ew ty tg]. unfold update_stoplight.
  destruct ns, ew; cbn -[Z.leb Z.add];
    match goal with
    | |- context [YELLOW_DURATION <=? ?x] =>
        destruct (Z.leb_spec YELLOW_DURATION x)
    end; cbn -[Z.add]; unfold YELLOW_DURATION in *; lia.
Qed.

Lemma update_keeps_counter_below_witness :
  time_yellow (update_stoplight (mkStoplight GREEN RED 400 2)) = 0.
Proof.
  apply (update_keeps_counter_below (mkStoplight GREEN RED 400 2)).
  vm_compute. discriminate.
Defined.

(** ** Properties of the environment *)

Section EnvironmentProperties.

Variable Surface : Type.
Variable scale : Surface -> Z * Z -> Surface.
Variable get_size : Surface -> Z * Z.

(** X9, [_blit_images] and the number of images: the call raises nothing
    if there are at least four ambient images and [IndexError] otherwise;
    in both cases the blits it adds to the window are those of the first
    four images (or of all, if there are fewer), in the order of the list,
    after the blits already there; images and sizes stay as they were. *)
Theorem blit_images_needs_four (self : Environment Surface) :
  (snd (_blit_images self) = None <->
   (4 <= List.length (ambient_images self))%nat) /\
  (snd (_blit_images self) = Some IndexError <->
   (List.length (ambient_images self) < 4)%nat) /\
  (exists new,
      blitted (window (fst (_blit_images self)))
        = blitted (window self) ++ new /\
      map fst new = firstn 4 (ambient_images self)) /\
  ambient_images (fst (_blit_images self)) = ambient_images self /\
  window_width (fst (_blit_images self)) = window_width self /\
  window_height (fst (_blit_images self)) = window_height self /\
  get_width (window (fst (_blit_images self))) = get_width (window self) /\
  get_height (window (fst (_blit_images self))) = get_height (window self).
Proof.
  destruct self as [[w h old] images ww wh].
  destruct images as [|i0 [|i1 [|i2 [|i3 rest]]]]; cbn;
    (split; [split; [intro; (discriminate || lia) | intro; (reflexivity || lia)] | ]);
    (split; [split; [intro; (discriminate || lia) | intro; (reflexivity || lia)] | ]);
    (split; [ | repeat split]).
  - exists []. now rewrite app_nil_r.
  - exists [(i0, (0, 0))]. now split.
  - exists [(i0, (0, 0)); (i1, (ww / 2 + 30, 0))].
    split; [ | reflexivity]. now rewrite <- app_assoc.
  - exists [(i0, (0, 0)); (i1, (ww / 2 + 30, 0));
            (i2, (ww / 2 + 30, wh / 2 + 30))].
    split; [ | reflexivity]. now rewrite <- !app_assoc.
  - exists [(i0, (0, 0)); (i1, (ww / 2 + 30, 0));
            (i2, (ww / 2 + 30, wh / 2 + 30)); (i3, (0, wh / 2 + 30))].
    split; [ | reflexivity]. now rewrite <- !app_assoc.
Qed.

Hypothesis scale_size :
  forall image size, get_size (scale image size) = size.

(** X10, the four pictures and the roads: in an environment built by
    [__init__] on a window at least 60 pixels wide and high, with a [scale]
    that gives a surface the size asked for, every blit that
    [_blit_images] makes lies within the window, and any two of them are
    at least 60 pixels apart, side by side or one above the other: the
    pictures leave a cross 60 pixels wide free for the two roads. *)
Theorem images_in_quadrants (window_size : Z * Z) (name : string)
                            (win : Window Surface) (loaded : list Surface)
                            (self : Environment Surface) :
  Environment_init scale window_size name win loaded = inr self ->
  60 <= get_width win ->
  60 <= get_height win ->
  exists new,
    blitted (window (fst (_blit_images self))) = blitted win ++ new /\
    Forall (inside get_size win) new /\
    ForallOrdPairs (apart get_size 60) new.
Proof.
  unfold Environment_init.
  destruct (negb ((0 <? fst window_size) && (0 <? snd window_size)));
    [discriminate | ].
  destruct name as [|ch name]; [discriminate | ].
  intros E Hw Hh. injection E as <-.
  destruct win as [w h old]. cbn [get_width get_height] in Hw, Hh.
  destruct loaded as [|i0 [|i1 [|i2 [|i3 rest]]]];
    cbn -[Z.div Z.add Z.sub app]; rewrite <- ?app_assoc;
    first [ exists []; split; [symmetry; apply app_nil_r | ]
          | eexists; split; [reflexivity | ] ];
    cbn -[Z.div Z.add Z.sub];
    (split;
     repeat first [apply Forall_nil | apply FOP_nil
                  | apply Forall_cons | apply FOP_cons]);
    unfold inside, apart; cbn -[Z.div Z.add Z.sub];
    rewrite ?scale_size; cbn -[Z.div Z.add Z.sub];
    Z.div_mod_to_equations; lia.
Qed.

End EnvironmentProperties.

Lemma images_in_quadrants_witness :
  exists new,
    blitted
      (window
         (fst (_blit_images
                 (mkEnvironment (mkWindow 800 600 [])
                    (_resize_images (fun _ size => size) (mkWindow 800 600 [])
                       [(1024, 768); (640, 480); (10, 10); (2000, 5); (7, 7)])
                    800 600))))
      = [] ++ new /\
    Forall (inside (fun image => image) (mkWindow 800 600 [])) new /\
    ForallOrdPairs (apart (fun image => image) 60) new.
Proof.
  apply (images_in_quadrants (Z * Z) (fun _ size => size) (fun image => image)
           (fun _ _ => eq_refl) (800, 600) "intersection"
           (mkWindow 800 600 [])
           [(1024, 768); (640, 480); (10, 10); (2000, 5); (7, 7)]).
  - reflexivity.
  - cbn. lia.
  - cbn. lia.
Defined.
